(** * The notes state manager of [scripted.js]

    A shallow embedding of the notes application: the note collection, the
    active selection, the storage entry, the editor inputs and the autosave
    timer, with the handlers of the script written as computations over an
    explicit program state. *)

From Stdlib Require Import List String Ascii ZArith Lia Bool.
From Stdlib Require Import Sorting.Sorted Sorting.Permutation.
From Stdlib Require Import DecimalString.
Import ListNotations.
Local Open Scope string_scope.
Local Open Scope Z_scope.

(** ** JavaScript values

    The values the script handles: what [JSON.parse] can produce, and
    [undefined] (a missing property, the result of a handler). Numbers are
    the epoch-millisecond timestamps of the notes and are modelled as
    integers. An object is the list of its own properties. *)

#[local] Set Warnings "-register-all".

Inductive value : Type :=
| VUndefined
| VNull
| VBool (b : bool)
| VNum (z : Z)
| VStr (s : string)
| VArr (elems : list value)
| VObj (props : list (string * value)).

(** [ToBoolean]: what [n && ...] and [!raw] test. *)
Definition truthy (v : value) : bool :=
  match v with
  | VUndefined | VNull => false
  | VBool b => b
  | VNum z => negb (z =? 0)
  | VStr s => negb (String.eqb s EmptyString)
  | VArr _ | VObj _ => true
  end.

(** The [typeof] operator. *)
Definition typeof (v : value) : string :=
  match v with
  | VUndefined => "undefined"
  | VNull => "object"
  | VBool _ => "boolean"
  | VNum _ => "number"
  | VStr _ => "string"
  | VArr _ | VObj _ => "object"
  end.

(** Property read [v.k] for the keys the script reads ([id], [title],
    [content], [createdAt], [updatedAt]): an object yields its property,
    every other truthy value yields [undefined]. The script reads a
    property only behind a truthiness guard, so the read never throws. *)
Definition get (v : value) (k : string) : value :=
  match v with
  | VObj props =>
      match find (fun kv => String.eqb (fst kv) k) props with
      | Some kv => snd kv
      | None => VUndefined
      end
  | _ => VUndefined
  end.

(** [String(v)], applied by the script to string-typed values only (the
    filter of [loadFromStorage] runs first), where it is the identity. *)
Definition String_of (v : value) : string :=
  match v with
  | VStr s => s
  | _ => EmptyString
  end.

(** The module variables [activeNoteId] (a string or [null]) and
    [autosaveTimer] ([null] or a timer handle) as values, for the tests
    [!activeNoteId], [if (autosaveTimer)] and [n.id === activeNoteId]. *)
Definition id_value (a : option string) : value :=
  match a with
  | Some i => VStr i
  | None => VNull
  end.

Definition handle_value (t : option nat) : value :=
  match t with
  | Some h => VNum (Z.of_nat h)
  | None => VNull
  end.

(** [i === a] for a string [i]. *)
Definition same_id (i : string) (a : option string) : bool :=
  match a with
  | Some j => String.eqb i j
  | None => false
  end.

(** Decimal text of an integer, as a template literal prints it. *)
Definition decimal (z : Z) : string := NilZero.string_of_int (Z.to_int z).

(** ** Notes and the program state *)

Record note : Type := mkNote {
  id : string;
  title : string;
  content : string;
  createdAt : Z;
  updatedAt : Z
}.

(** The object a note is, property by property, in creation order. *)
Definition note_to_value (n : note) : value :=
  VObj [ ("id", VStr (id n));
         ("title", VStr (title n));
         ("content", VStr (content n));
         ("createdAt", VNum (createdAt n));
         ("updatedAt", VNum (updatedAt n)) ].

(** [notes], [activeNoteId] and [autosaveTimer] are the module variables of
    the script. The rest is the part of the environment that the handlers
    read and write: the storage entry under [STORAGE_KEY], the values and the
    disabled flag of the editor controls, the entries last rendered in the
    list element (each entry is built from one note), the table of armed
    timers (handle and deadline on the event loop's monotonic clock), the
    next free timer handle, the monotonic time, and the number of readings
    of the wall clock made so far. *)
Record state : Type := mkState {
  notes : list note;
  activeNoteId : option string;
  autosaveTimer : option nat;
  storage : option string;
  titleInput_value : string;
  contentInput_value : string;
  inputs_disabled : bool;
  notesListEl : list note;
  timers : list (nat * Z);
  next_handle : nat;
  mono : Z;
  ticks : nat
}.

Definition set_notes (v : list note) (s : state) : state :=
  mkState v (activeNoteId s) (autosaveTimer s) (storage s)
          (titleInput_value s) (contentInput_value s) (inputs_disabled s)
          (notesListEl s) (timers s) (next_handle s) (mono s) (ticks s).

Definition set_activeNoteId (v : option string) (s : state) : state :=
  mkState (notes s) v (autosaveTimer s) (storage s)
          (titleInput_value s) (contentInput_value s) (inputs_disabled s)
          (notesListEl s) (timers s) (next_handle s) (mono s) (ticks s).

Definition set_autosaveTimer (v : option nat) (s : state) : state :=
  mkState (notes s) (activeNoteId s) v (storage s)
          (titleInput_value s) (contentInput_value s) (inputs_disabled s)
          (notesListEl s) (timers s) (next_handle s) (mono s) (ticks s).

Definition set_storage (v : option string) (s : state) : state :=
  mkState (notes s) (activeNoteId s) (autosaveTimer s) v
          (titleInput_value s) (contentInput_value s) (inputs_disabled s)
          (notesListEl s) (timers s) (next_handle s) (mono s) (ticks s).

Definition set_titleInput_value (v : string) (s : state) : state :=
  mkState (notes s) (activeNoteId s) (autosaveTimer s) (storage s)
          v (contentInput_value s) (inputs_disabled s)
          (notesListEl s) (timers s) (next_handle s) (mono s) (ticks s).

Definition set_contentInput_value (v : string) (s : state) : state :=
  mkState (notes s) (activeNoteId s) (autosaveTimer s) (storage s)
          (titleInput_value s) v (inputs_disabled s)
          (notesListEl s) (timers s) (next_handle s) (mono s) (ticks s).

Definition set_inputs_disabled (v : bool) (s : state) : state :=
  mkState (notes s) (activeNoteId s) (autosaveTimer s) (storage s)
          (titleInput_value s) (contentInput_value s) v
          (notesListEl s) (timers s) (next_handle s) (mono s) (ticks s).

Definition set_notesListEl (v : list note) (s : state) : state :=
  mkState (notes s) (activeNoteId s) (autosaveTimer s) (storage s)
          (titleInput_value s) (contentInput_value s) (inputs_disabled s)
          v (timers s) (next_handle s) (mono s) (ticks s).

Definition set_timers (v : list (nat * Z)) (s : state) : state :=
  mkState (notes s) (activeNoteId s) (autosaveTimer s) (storage s)
          (titleInput_value s) (contentInput_value s) (inputs_disabled s)
          (notesListEl s) v (next_handle s) (mono s) (ticks s).

Definition set_next_handle (v : nat) (s : state) : state :=
  mkState (notes s) (activeNoteId s) (autosaveTimer s) (storage s)
          (titleInput_value s) (contentInput_value s) (inputs_disabled s)
          (notesListEl s) (timers s) v (mono s) (ticks s).

Definition set_mono (v : Z) (s : state) : state :=
  mkState (notes s) (activeNoteId s) (autosaveTimer s) (storage s)
          (titleInput_value s) (contentInput_value s) (inputs_disabled s)
          (notesListEl s) (timers s) (next_handle s) v (ticks s).

Definition set_ticks (v : nat) (s : state) : state :=
  mkState (notes s) (activeNoteId s) (autosaveTimer s) (storage s)
          (titleInput_value s) (contentInput_value s) (inputs_disabled s)
          (notesListEl s) (timers s) (next_handle s) (mono s) v.

(** ** Computations over the state *)

Definition M (A : Type) : Type := state -> A * state.

Definition ret {A : Type} (a : A) : M A := fun s => (a, s).

Definition bind {A B : Type} (m : M A) (k : A -> M B) : M B :=
  fun s => let r := m s in k (fst r) (snd r).

Definition gets {A : Type} (f : state -> A) : M A := fun s => (f s, s).

Definition modify (f : state -> state) : M unit := fun s => (tt, f s).

Declare Scope js_scope.
Delimit Scope js_scope with js.
Notation "x <- m ;; k" := (bind m (fun x => k))
  (at level 61, m at next level, right associativity) : js_scope.
Notation "m ;;; k" := (bind m (fun _ => k))
  (at level 61, right associativity) : js_scope.
Local Open Scope js_scope.

(** [exec m s] is the state [m] leaves, [result m s] the value it returns. *)
Definition exec {A : Type} (m : M A) (s : state) : state := snd (m s).
Definition result {A : Type} (m : M A) (s : state) : A := fst (m s).

Fixpoint mapM {A B : Type} (f : A -> M B) (l : list A) : M (list B) :=
  match l with
  | [] => ret []
  | x :: l' => y <- f x ;; ys <- mapM f l' ;; ret (y :: ys)
  end.

(** ** Sorting

    [notes.sort(compareFn)] sorts in place and is stable. The comparator of
    the script is consistent, so the outcome is the one stable arrangement,
    computed here by insertion from the right. *)

Definition compareFn (a b : note) : Z := updatedAt b - updatedAt a.

Fixpoint insert_sorted (x : note) (l : list note) : list note :=
  match l with
  | [] => [x]
  | y :: l' =>
      if 0 <? compareFn x y then y :: insert_sorted x l' else x :: y :: l'
  end.

Definition Array_sort (l : list note) : list note :=
  fold_right insert_sorted [] l.

(** Every adjacent pair is non-increasing in [updatedAt]. *)
Definition desc (a b : note) : Prop := updatedAt b <= updatedAt a.
Definition sorted_desc (l : list note) : Prop := Sorted desc l.

(** ** The handlers of the script

    The platform functions the script calls are parameters: [JSON.parse]
    ([None] when it throws), [JSON.stringify], and the wall clock, given as
    the sequence of the readings [Date.now()] returns, one per call. *)

Record platform : Type := mkPlatform {
  JSON_parse : string -> option value;
  JSON_stringify : value -> string;
  clock : nat -> Z
}.

Section Script.

Variable P : platform.

(** [Date.now()]: the next reading of the wall clock. *)
Definition Date_now : M Z :=
  fun s => (clock P (ticks s), set_ticks (S (ticks s)) s).

(** [generateId]; [rnd] is the text of
    [Math.random().toString(16).slice(2)]. *)
Definition generateId (rnd : string) : M string :=
  t <- Date_now ;;
  ret ("n_" ++ decimal t ++ "_" ++ rnd)%string.

Definition getActiveNote : M (option note) :=
  gets (fun s => find (fun n => same_id (id n) (activeNoteId s)) (notes s)).

Definition sortNotesByUpdatedAtDesc : M unit :=
  modify (fun s => set_notes (Array_sort (notes s)) s).

(** *** Storage *)

(** The callback of [parsed.filter]. *)
Definition keep (n : value) : bool :=
  truthy n && String.eqb (typeof (get n "id")) "string".

(** The callback of [.map]: the fields are evaluated in source order, each
    missing timestamp with a reading of the clock of its own. The tests
    [typeof v === "string"] and [typeof v === "number"] hold of [VStr] and
    of [VNum] and of nothing else. *)
Definition sanitize (n : value) : M note :=
  c <- match get n "createdAt" with
       | VNum z => ret z
       | _ => Date_now
       end ;;
  u <- match get n "updatedAt" with
       | VNum z => ret z
       | _ => Date_now
       end ;;
  ret (mkNote (String_of (get n "id"))
              match get n "title" with VStr t => t | _ => EmptyString end
              match get n "content" with VStr t => t | _ => EmptyString end
              c u).

Definition loadFromStorage : M (list note) :=
  raw <- gets storage ;;
  match raw with
  | None => ret []
  | Some text =>
      if String.eqb text EmptyString then ret []
      else
        match JSON_parse P text with
        | Some (VArr parsed) => mapM sanitize (filter keep parsed)
        | Some _ => ret []
        | None => ret []
        end
  end.

Definition saveToStorage : M unit :=
  modify (fun s =>
    set_storage (Some (JSON_stringify P (VArr (map note_to_value (notes s))))) s).

(** *** Rendering *)

(** The list element shows one entry per note, in the order of [notes]
    after sorting; the markup of an entry is not modelled. *)
Definition renderNotesList : M unit :=
  sortNotesByUpdatedAtDesc ;;;
  modify (fun s => set_notesListEl (notes s) s).

Definition renderEditor : M unit :=
  note <- getActiveNote ;;
  match note with
  | None =>
      modify (fun s =>
        set_contentInput_value EmptyString
          (set_titleInput_value EmptyString (set_inputs_disabled true s)))
  | Some n =>
      modify (fun s =>
        set_contentInput_value (content n)
          (set_titleInput_value (title n) (set_inputs_disabled false s)))
  end.

(** *** Actions

    Each handler returns [undefined]. *)

Definition createNewNote (rnd : string) : M value :=
  now <- Date_now ;;
  newId <- generateId rnd ;;
  let newNote := mkNote newId EmptyString EmptyString now now in
  modify (fun s => set_notes (newNote :: notes s) s) ;;;
  modify (set_activeNoteId (Some (id newNote))) ;;;
  saveToStorage ;;;
  renderNotesList ;;;
  renderEditor ;;;
  ret VUndefined.

Definition openNote (i : string) : M value :=
  exists_ <- gets (fun s => existsb (fun n => String.eqb (id n) i) (notes s)) ;;
  if negb exists_ then ret VUndefined
  else
    modify (set_activeNoteId (Some i)) ;;;
    renderNotesList ;;;
    renderEditor ;;;
    ret VUndefined.

(** [note.title = ...] and the two assignments after it write through the
    reference [find] returned: the first note carrying that id. *)
Fixpoint assign_first (a : option string) (t c : string) (u : Z)
  (l : list note) : list note :=
  match l with
  | [] => []
  | n :: l' =>
      if same_id (id n) a
      then mkNote (id n) t c (createdAt n) u :: l'
      else n :: assign_first a t c u l'
  end.

Definition saveActiveNote : M value :=
  note <- getActiveNote ;;
  match note with
  | None => ret VUndefined
  | Some _ =>
      t <- gets titleInput_value ;;
      c <- gets contentInput_value ;;
      u <- Date_now ;;
      modify (fun s =>
        set_notes (assign_first (activeNoteId s) t c u (notes s)) s) ;;;
      saveToStorage ;;;
      renderNotesList ;;;
      ret VUndefined
  end.

(** [ok] is what [confirm] answers, should the handler ask. *)
Definition deleteActiveNote (ok : bool) : M value :=
  note <- getActiveNote ;;
  match note with
  | None => ret VUndefined
  | Some _ =>
      if negb ok then ret VUndefined
      else
        modify (fun s =>
          set_notes
            (filter (fun n => negb (same_id (id n) (activeNoteId s)))
                    (notes s)) s) ;;;
        modify (fun s =>
          set_activeNoteId
            (match notes s with
             | n :: _ => Some (id n)
             | [] => None
             end) s) ;;;
        saveToStorage ;;;
        renderNotesList ;;;
        renderEditor ;;;
        ret VUndefined
  end.

(** *** The autosave timer

    [setTimeout] registers a timer under a fresh handle, due [delay]
    milliseconds from now; [clearTimeout] removes the timer of a handle and
    does nothing for a handle that is not armed. Every timer of the script
    carries the same callback, [saveActiveNote]. *)

Definition setTimeout (delay : Z) : M nat :=
  fun s =>
    (next_handle s,
     set_next_handle (S (next_handle s))
       (set_timers (timers s ++ [(next_handle s, mono s + delay)])%list s)).

Definition clearTimeout (h : nat) : M unit :=
  modify (fun s =>
    set_timers (filter (fun hd => negb (Nat.eqb (fst hd) h)) (timers s)) s).

Definition scheduleAutosave : M value :=
  t <- gets autosaveTimer ;;
  match t with
  | Some h => if truthy (handle_value t) then clearTimeout h else ret tt
  | None => ret tt
  end ;;;
  h <- setTimeout 350 ;;
  modify (set_autosaveTimer (Some h)) ;;;
  ret VUndefined.

(** *** Start-up and listeners *)

Definition init : M value :=
  loaded <- loadFromStorage ;;
  modify (set_notes loaded) ;;;
  sortNotesByUpdatedAtDesc ;;;
  modify (fun s =>
    set_activeNoteId
      (match notes s with
       | n :: _ => Some (id n)
       | [] => None
       end) s) ;;;
  renderNotesList ;;;
  renderEditor ;;;
  ret VUndefined.

(** The [input] listener of either editor control. *)
Definition onInput : M value :=
  a <- gets activeNoteId ;;
  if negb (truthy (id_value a)) then ret VUndefined
  else
    scheduleAutosave ;;;
    renderNotesList ;;;
    ret VUndefined.

(** The [keydown] listener; [isMac] is what the platform test yields. *)
Definition onKeydown (isMac metaKey ctrlKey : bool) (key : string) : M value :=
  let saveCombo :=
    (isMac && metaKey && String.eqb key "s")
    || (negb isMac && ctrlKey && String.eqb key "s") in
  if saveCombo then saveActiveNote ;;; ret VUndefined
  else ret VUndefined.

(** ** The event loop

    What can happen to the page: a click on one of the three buttons or on a
    list entry, typing into an editor control (a disabled control takes no
    input), a key press, and time passing. When time passes, the timers that
    fall due run their callback, each at its deadline and in arming order;
    the computation returns the times at which the autosave callback ran. *)

Inductive event : Type :=
| ClickCreate (rnd : string)
| ClickEntry (i : string)
| ClickSave
| ClickDelete (ok : bool)
| InputTitle (v : string)
| InputContent (v : string)
| Keydown (isMac metaKey ctrlKey : bool) (key : string)
| Wait (dt : Z).

Fixpoint fire_all (due : list (nat * Z)) : M (list Z) :=
  match due with
  | [] => ret []
  | hd :: rest =>
      clearTimeout (fst hd) ;;;
      modify (set_mono (snd hd)) ;;;
      saveActiveNote ;;;
      later <- fire_all rest ;;
      ret (snd hd :: later)
  end.

Definition elapse (dt : Z) : M (list Z) :=
  now <- gets mono ;;
  armed <- gets timers ;;
  let target := now + Z.max 0 dt in
  fired <- fire_all (filter (fun hd => snd hd <=? target) armed) ;;
  modify (set_mono target) ;;;
  ret fired.

Definition typeInto (setter : string -> state -> state) (v : string)
  : M (list Z) :=
  disabled <- gets inputs_disabled ;;
  if disabled then ret []
  else modify (setter v) ;;; onInput ;;; ret [].

Definition dispatch (e : event) : M (list Z) :=
  match e with
  | ClickCreate rnd => createNewNote rnd ;;; ret []
  | ClickEntry i => openNote i ;;; ret []
  | ClickSave => saveActiveNote ;;; ret []
  | ClickDelete ok => deleteActiveNote ok ;;; ret []
  | InputTitle v => typeInto set_titleInput_value v
  | InputContent v => typeInto set_contentInput_value v
  | Keydown isMac metaKey ctrlKey key =>
      onKeydown isMac metaKey ctrlKey key ;;; ret []
  | Wait dt => elapse dt
  end.

Fixpoint run (evs : list event) : M (list Z) :=
  match evs with
  | [] => ret []
  | e :: evs' =>
      fired <- dispatch e ;;
      later <- run evs' ;;
      ret (fired ++ later)%list
  end.

(** The page as the script finds it, with [stored] under the storage key. *)
Definition boot (stored : option string) : state :=
  mkState [] None None stored EmptyString EmptyString false [] [] 1 0 0.

(** The state after start-up and the events [evs]. *)
Definition session (stored : option string) (evs : list event) : state :=
  exec (init ;;; run evs) (boot stored).

End Script.

(** ** Properties of records, states and event sequences *)

(** What the loader keeps: the records whose [id] is a string. *)
Definition has_string_id (raw : value) : bool :=
  match get raw "id" with
  | VStr _ => true
  | _ => false
  end.

(** [z] is a reading of the wall clock numbered from [lo] up to, and not
    including, [hi]: a time that was current during the call. *)
Definition current_time (P : platform) (lo hi : nat) (z : Z) : Prop :=
  exists k : nat, (lo <= k < hi)%nat /\ z = clock P k.

(** The note [n] is the raw record [raw] with its defaults filled in. *)
Definition sanitized (P : platform) (lo hi : nat) (raw : value) (n : note)
  : Prop :=
  get raw "id" = VStr (id n) /\
  title n = match get raw "title" with VStr t => t | _ => EmptyString end /\
  content n = match get raw "content" with VStr t => t | _ => EmptyString end /\
  match get raw "createdAt" with
  | VNum z => createdAt n = z
  | _ => current_time P lo hi (createdAt n)
  end /\
  match get raw "updatedAt" with
  | VNum z => updatedAt n = z
  | _ => current_time P lo hi (updatedAt n)
  end.

(** Both timestamps of the raw record are numbers. *)
Definition numeric_times (raw : value) : bool :=
  match get raw "createdAt", get raw "updatedAt" with
  | VNum _, VNum _ => true
  | _, _ => false
  end.

(** Some note carries the active id. *)
Definition has_active (s : state) : bool :=
  existsb (fun n => same_id (id n) (activeNoteId s)) (notes s).

(** The timer table is empty, or holds the one timer whose handle
    [autosaveTimer] remembers; handles are positive. *)
Definition timers_ok (s : state) : Prop :=
  next_handle s <> 0%nat /\
  (timers s = [] \/
   exists h d, timers s = [(h, d)] /\ autosaveTimer s = Some h /\ h <> 0%nat).

(** What holds of the page whenever it waits for the next event. *)
Record inv (s : state) : Prop := mkInv {
  inv_sorted : sorted_desc (notes s);
  inv_rendered : notesListEl s = notes s;
  inv_timers : timers_ok s;
  inv_active : activeNoteId s = None \/ has_active s = true;
  inv_enabled : inputs_disabled s = negb (has_active s)
}.

(** An edit of one editor control, and a burst of edits: a first edit, then
    each further edit [gap] milliseconds after the one before it. *)
Inductive edit : Type :=
| EditTitle (v : string)
| EditContent (v : string).

Definition edit_event (e : edit) : event :=
  match e with
  | EditTitle v => InputTitle v
  | EditContent v => InputContent v
  end.

Fixpoint burst_rest (rest : list (Z * edit)) : list event :=
  match rest with
  | [] => []
  | ge :: rest' => Wait (fst ge) :: edit_event (snd ge) :: burst_rest rest'
  end.

Definition burst (e0 : edit) (rest : list (Z * edit)) : list event :=
  edit_event e0 :: burst_rest rest.

(** The last edit of a burst, and what it means for the editor to hold the
    value an edit typed. *)
Fixpoint last_edit (e0 : edit) (rest : list (Z * edit)) : edit :=
  match rest with
  | [] => e0
  | ge :: rest' => last_edit (snd ge) rest'
  end.

Definition staged (e : edit) (s : state) : Prop :=
  match e with
  | EditTitle v => titleInput_value s = v
  | EditContent v => contentInput_value s = v
  end.

(** ** A sample platform

    A serializer for values whose strings need no escaping, a parser that
    reads back the texts it is given a table of, and a clock that advances
    by ten milliseconds per reading. *)

Definition quote : string := String (ascii_of_nat 34) EmptyString.

Fixpoint sample_stringify (v : value) : string :=
  match v with
  | VUndefined => "undefined"
  | VNull => "null"
  | VBool true => "true"
  | VBool false => "false"
  | VNum z => decimal z
  | VStr s => quote ++ s ++ quote
  | VArr elems =>
      "[" ++ String.concat ","
               ((fix each (l : list value) : list string :=
                   match l with
                   | [] => []
                   | x :: l' => sample_stringify x :: each l'
                   end) elems) ++ "]"
  | VObj props =>
      "{" ++ String.concat ","
               ((fix each (l : list (string * value)) : list string :=
                   match l with
                   | [] => []
                   | kv :: l' =>
                       (quote ++ fst kv ++ quote ++ ":"
                          ++ sample_stringify (snd kv)) :: each l'
                   end) props) ++ "}"
  end.

(** The stored array of the load scenario: a bare record, a record without
    id, and a record with a title and an update time. *)
Definition scenario_array : value :=
  VArr [ VObj [("id", VStr "x")];
         VObj [("foo", VNum 1)];
         VObj [("id", VStr "y"); ("title", VStr "T"); ("updatedAt", VNum 5)] ].

(** Two stored records that share one id. *)
Definition twins_array : value :=
  VArr [ VObj [("id", VStr "x"); ("title", VStr "one");
               ("content", VStr ""); ("createdAt", VNum 1);
               ("updatedAt", VNum 2)];
         VObj [("id", VStr "x"); ("title", VStr "two");
               ("content", VStr ""); ("createdAt", VNum 1);
               ("updatedAt", VNum 1)] ].

Definition sample_parse (text : string) : option value :=
  find (fun v => String.eqb (sample_stringify v) text)
       [scenario_array; twins_array].

Definition sample_clock (k : nat) : Z := 1000 + 10 * Z.of_nat k.

Definition sample : platform :=
  mkPlatform sample_parse sample_stringify sample_clock.

(** The page before start-up with the scenario array in storage. *)
Definition scenario_page : state :=
  boot (Some (sample_stringify scenario_array)).

(** The page started on the two records that share an id. *)
Definition twins_page : state :=
  session sample (Some (sample_stringify twins_array)) [].

(** The page started on empty storage; after creating one note; after
    creating two; after creating one, typing a title and waiting 100 ms. *)
Definition empty_page : state := session sample None [].

Definition one_page : state := session sample None [ClickCreate "ab"].

Definition two_page : state :=
  session sample None [ClickCreate "ab"; ClickCreate "cd"].

Definition typed_page : state :=
  session sample None [ClickCreate "ab"; InputTitle "Hello"; Wait 100].

(** ** Sorting facts *)

Lemma insert_sorted_perm (x : note) (l : list note) :
  Permutation (x :: l) (insert_sorted x l).
Proof.
  induction l as [|y l IH]; simpl.
  - apply Permutation_refl.
  - destruct (0 <? compareFn x y).
    + eapply perm_trans; [apply perm_swap|]. now apply perm_skip.
    + apply Permutation_refl.
Qed.

Lemma Array_sort_perm (l : list note) : Permutation l (Array_sort l).
Proof.
  induction l as [|x l IH]; simpl.
  - constructor.
  - eapply perm_trans; [|apply insert_sorted_perm]. now apply perm_skip.
Qed.

Lemma insert_sorted_hd (x a : note) (l : list note) :
  desc a x -> HdRel desc a l -> HdRel desc a (insert_sorted x l).
Proof.
  intros Hax Hal. destruct l as [|y l]; simpl.
  - now constructor.
  - inversion Hal; subst. destruct (0 <? compareFn x y); now constructor.
Qed.

Lemma insert_sorted_sorted (x : note) (l : list note) :
  sorted_desc l -> sorted_desc (insert_sorted x l).
Proof.
  unfold sorted_desc. induction l as [|y l IH]; simpl; intros Hs.
  - repeat constructor.
  - inversion Hs as [|? ? Hl Hhd]; subst.
    destruct (0 <? compareFn x y) eqn:E; unfold compareFn in E.
    + apply Z.ltb_lt in E. constructor.
      * now apply IH.
      * apply insert_sorted_hd; [unfold desc; lia | assumption].
    + apply Z.ltb_ge in E. constructor; [assumption|].
      constructor. unfold desc. lia.
Qed.

Lemma Array_sort_sorted (l : list note) : sorted_desc (Array_sort l).
Proof.
  induction l as [|x l IH]; simpl.
  - constructor.
  - now apply insert_sorted_sorted.
Qed.

(** Sorting a list that is in order leaves it as it is. *)
Lemma Array_sort_fixed (l : list note) : sorted_desc l -> Array_sort l = l.
Proof.
  unfold sorted_desc. induction l as [|x l IH]; simpl; intros Hs; [reflexivity|].
  inversion Hs as [|? ? Hl Hhd]; subst. rewrite (IH Hl).
  destruct l as [|y l]; simpl; [reflexivity|].
  inversion Hhd as [|? ? Hd]; subst. unfold desc in Hd. unfold compareFn.
  destruct (0 <? updatedAt y - updatedAt x) eqn:E; [|reflexivity].
  apply Z.ltb_lt in E. lia.
Qed.

Lemma desc_trans : Relations_1.Transitive desc.
Proof. intros a b c Hab Hbc. unfold desc in *. lia. Qed.

Lemma sorted_desc_strong (l : list note) :
  sorted_desc l -> StronglySorted desc l.
Proof. apply Sorted_StronglySorted, desc_trans. Qed.

Lemma sorted_desc_filter (f : note -> bool) (l : list note) :
  sorted_desc l -> sorted_desc (filter f l).
Proof.
  intros Hs. apply StronglySorted_Sorted.
  apply sorted_desc_strong in Hs.
  induction Hs as [|x l Hl IH Hall]; simpl; [constructor|].
  destruct (f x); [|assumption].
  constructor; [assumption|].
  rewrite Forall_forall in *. intros y Hy. apply filter_In in Hy.
  apply Hall, Hy.
Qed.

(** The head of a list in order carries the greatest [updatedAt]. *)
Lemma sorted_desc_head (x : note) (l : list note) :
  sorted_desc (x :: l) -> forall y, In y (x :: l) -> updatedAt y <= updatedAt x.
Proof.
  intros Hs y Hy. apply sorted_desc_strong in Hs.
  inversion Hs as [|? ? _ Hall]; subst.
  destruct Hy as [<-|Hy]; [lia|].
  rewrite Forall_forall in Hall. apply (Hall y Hy).
Qed.

Lemma existsb_find {A : Type} (f : A -> bool) (l : list A) :
  existsb f l = match find f l with Some _ => true | None => false end.
Proof.
  induction l as [|x l IH]; simpl; [reflexivity|].
  destruct (f x); simpl; [reflexivity|exact IH].
Qed.

Lemma existsb_perm {A : Type} (f : A -> bool) (l l' : list A) :
  Permutation l l' -> existsb f l = existsb f l'.
Proof.
  induction 1; simpl.
  - reflexivity.
  - now rewrite IHPermutation.
  - destruct (f x), (f y); reflexivity.
  - congruence.
Qed.

(** ** What each handler does to the state *)

Section Facts.

Variable P : platform.

Ltac step_all :=
  unfold saveActiveNote, saveToStorage, renderNotesList, renderEditor,
    sortNotesByUpdatedAtDesc, getActiveNote, Date_now,
    bind, ret, gets, modify; simpl.

Ltac proj_simpl :=
  cbn [notes activeNoteId autosaveTimer storage titleInput_value
       contentInput_value inputs_disabled notesListEl timers next_handle
       mono ticks].

(** The state [renderEditor] leaves: the controls follow the active note. *)
Definition editor_of (s : state) : state :=
  match find (fun n => same_id (id n) (activeNoteId s)) (notes s) with
  | Some n =>
      set_contentInput_value (content n)
        (set_titleInput_value (title n) (set_inputs_disabled false s))
  | None =>
      set_contentInput_value EmptyString
        (set_titleInput_value EmptyString (set_inputs_disabled true s))
  end.

Lemma renderEditor_eq (s : state) : renderEditor s = (tt, editor_of s).
Proof.
  unfold editor_of. step_all.
  destruct (find _ (notes s)); reflexivity.
Qed.

Lemma editor_of_frame (s : state) :
  notes (editor_of s) = notes s /\
  activeNoteId (editor_of s) = activeNoteId s /\
  autosaveTimer (editor_of s) = autosaveTimer s /\
  storage (editor_of s) = storage s /\
  notesListEl (editor_of s) = notesListEl s /\
  timers (editor_of s) = timers s /\
  next_handle (editor_of s) = next_handle s /\
  mono (editor_of s) = mono s /\
  ticks (editor_of s) = ticks s /\
  inputs_disabled (editor_of s) = negb (has_active s).
Proof.
  unfold editor_of, has_active. rewrite existsb_find.
  destruct (find _ (notes s)); simpl; repeat split; reflexivity.
Qed.

(** The state a save leaves when the active note exists. *)
Definition saved (s : state) : state :=
  let l := assign_first (activeNoteId s) (titleInput_value s)
             (contentInput_value s) (clock P (ticks s)) (notes s) in
  mkState (Array_sort l) (activeNoteId s) (autosaveTimer s)
    (Some (JSON_stringify P (VArr (map note_to_value l))))
    (titleInput_value s) (contentInput_value s) (inputs_disabled s)
    (Array_sort l) (timers s) (next_handle s) (mono s) (S (ticks s)).

Lemma saveActiveNote_eq (s : state) :
  saveActiveNote P s =
  (VUndefined, if has_active s then saved s else s).
Proof.
  unfold has_active, saved. rewrite existsb_find. step_all.
  destruct (find _ (notes s)); reflexivity.
Qed.

(** The state a confirmed delete leaves when the active note exists. *)
Definition deleted (s : state) : state :=
  let l := filter (fun n => negb (same_id (id n) (activeNoteId s))) (notes s) in
  editor_of
    (mkState (Array_sort l)
       (match l with n :: _ => Some (id n) | [] => None end)
       (autosaveTimer s)
       (Some (JSON_stringify P (VArr (map note_to_value l))))
       (titleInput_value s) (contentInput_value s) (inputs_disabled s)
       (Array_sort l) (timers s) (next_handle s) (mono s) (ticks s)).

Lemma deleteActiveNote_eq (ok : bool) (s : state) :
  deleteActiveNote P ok s =
  (VUndefined, if has_active s && ok then deleted s else s).
Proof.
  unfold has_active, deleted. rewrite existsb_find.
  unfold deleteActiveNote, bind, getActiveNote, gets. simpl.
  destruct (find _ (notes s)); simpl; [|reflexivity].
  destruct ok; simpl; [|reflexivity].
  unfold bind. rewrite renderEditor_eq. reflexivity.
Qed.

(** The state creating a note leaves. *)
Definition created (rnd : string) (s : state) : state :=
  let now := clock P (ticks s) in
  let newId := ("n_" ++ decimal (clock P (S (ticks s))) ++ "_" ++ rnd)%string in
  let l := mkNote newId EmptyString EmptyString now now :: notes s in
  editor_of
    (mkState (Array_sort l) (Some newId) (autosaveTimer s)
       (Some (JSON_stringify P (VArr (map note_to_value l))))
       (titleInput_value s) (contentInput_value s) (inputs_disabled s)
       (Array_sort l) (timers s) (next_handle s) (mono s) (S (S (ticks s)))).

Lemma createNewNote_eq (rnd : string) (s : state) :
  createNewNote P rnd s = (VUndefined, created rnd s).
Proof.
  unfold created, createNewNote, bind. simpl.
  rewrite renderEditor_eq. reflexivity.
Qed.

(** The state opening an existing note leaves. *)
Definition opened (i : string) (s : state) : state :=
  editor_of
    (mkState (Array_sort (notes s)) (Some i) (autosaveTimer s) (storage s)
       (titleInput_value s) (contentInput_value s) (inputs_disabled s)
       (Array_sort (notes s)) (timers s) (next_handle s) (mono s) (ticks s)).

Lemma openNote_eq (i : string) (s : state) :
  openNote i s =
  (VUndefined,
   if existsb (fun n => String.eqb (id n) i) (notes s) then opened i s else s).
Proof.
  unfold opened, openNote, bind, gets. simpl.
  destruct (existsb _ (notes s)); simpl; [|reflexivity].
  unfold bind. rewrite renderEditor_eq. reflexivity.
Qed.

(** The assignment through the reference of [find] rewrites the first note
    with the active id and leaves the notes around it alone. *)
Lemma assign_first_split (a : option string) (t c : string) (u : Z)
  (l : list note) (n : note) :
  find (fun m => same_id (id m) a) l = Some n ->
  exists before after,
    l = (before ++ n :: after)%list /\
    Forall (fun m => same_id (id m) a = false) before /\
    assign_first a t c u l =
      (before ++ mkNote (id n) t c (createdAt n) u :: after)%list.
Proof.
  induction l as [|m l IH]; simpl; intros Hf; [discriminate|].
  destruct (same_id (id m) a) eqn:E.
  - injection Hf as <-. exists [], l. repeat split. constructor.
  - destruct (IH Hf) as (before & after & Hl & Hb & Ha).
    exists (m :: before), after. simpl. rewrite Ha. subst l.
    repeat split. now constructor.
Qed.

Lemma assign_first_ids (a : option string) (t c : string) (u : Z)
  (l : list note) :
  map id (assign_first a t c u l) = map id l.
Proof.
  induction l as [|m l IH]; simpl; [reflexivity|].
  destruct (same_id (id m) a); simpl; [reflexivity|now rewrite IH].
Qed.

(** ** The operations on the collection *)

(** C10. A delete that the confirmation dialog declines changes nothing:
    the handler returns with the whole state, and so the collection, the
    active selection and the stored text, exactly as before. *)
Theorem delete_declined_changes_nothing (s : state) :
  exec (deleteActiveNote P false) s = s /\
  exec (dispatch P (ClickDelete false)) s = s.
Proof.
  unfold dispatch, exec, bind. rewrite deleteActiveNote_eq.
  rewrite andb_false_r. simpl. split; reflexivity.
Qed.

(** C7, as the code has it. Deleting is a no-op when no note carries the
    active id. When one does, and the dialog confirms, every note with that
    id leaves the collection, the remaining notes are stored, and the
    handler returns [undefined]; that the collection is now empty shows as
    the active selection being null. *)
Theorem deleteActiveNote_removes (s : state) :
  let s' := exec (deleteActiveNote P true) s in
  let rest :=
    filter (fun n => negb (same_id (id n) (activeNoteId s))) (notes s) in
  result (deleteActiveNote P true) s = VUndefined /\
  if has_active s then
    notes s' = Array_sort rest /\
    (forall n, In n (notes s') <->
               In n (notes s) /\ same_id (id n) (activeNoteId s) = false) /\
    storage s' = Some (JSON_stringify P (VArr (map note_to_value rest))) /\
    (activeNoteId s' = None <-> notes s' = [])
  else s' = s.
Proof.
  unfold exec, result. rewrite deleteActiveNote_eq, andb_true_r. simpl.
  split; [reflexivity|].
  destruct (has_active s); [|reflexivity].
  unfold deleted.
  match goal with |- context [editor_of ?x] =>
    destruct (editor_of_frame x) as (Hn & Ha & _ & Hs & _)
  end.
  rewrite Hn, Ha, Hs. simpl.
  set (rest := filter _ (notes s)).
  split; [reflexivity|]. split; [|split; [reflexivity|]].
  - intros n. split.
    + intros Hin.
      apply (Permutation_in _ (Permutation_sym (Array_sort_perm rest))) in Hin.
      apply filter_In in Hin. destruct Hin as [Hin Hid].
      apply negb_true_iff in Hid. now split.
    + intros [Hin Hid]. apply (Permutation_in _ (Array_sort_perm rest)).
      apply filter_In. split; [assumption|]. now rewrite Hid.
  - split.
    + intros Hnone. destruct rest; [reflexivity|discriminate].
    + intros Hnil. destruct rest as [|x rest']; [reflexivity|].
      apply (f_equal (@List.length note)) in Hnil.
      rewrite <- (Permutation_length (Array_sort_perm (x :: rest'))) in Hnil.
      discriminate.
Qed.

(** C8, as the code has it. Creating builds a note with both timestamps
    equal to the current time and with empty title and content, puts it at
    the head of the collection, stores the collection in that order, sorts,
    makes the new id the active selection, and returns [undefined]. *)
Theorem createNewNote_adds (rnd : string) (s : state) :
  let s' := exec (createNewNote P rnd) s in
  let now := clock P (ticks s) in
  let newNote :=
    mkNote ("n_" ++ decimal (clock P (S (ticks s))) ++ "_" ++ rnd)%string
           EmptyString EmptyString now now in
  result (createNewNote P rnd) s = VUndefined /\
  storage s' =
    Some (JSON_stringify P (VArr (map note_to_value (newNote :: notes s)))) /\
  notes s' = Array_sort (newNote :: notes s) /\
  In newNote (notes s') /\
  activeNoteId s' = Some (id newNote).
Proof.
  unfold exec, result. rewrite createNewNote_eq. simpl.
  unfold created.
  match goal with |- context [editor_of ?x] =>
    destruct (editor_of_frame x) as (Hn & Ha & _ & Hs & _)
  end.
  rewrite Hn, Ha, Hs. simpl. repeat split.
  match goal with |- In ?n (insert_sorted ?n ?l) =>
    apply (Permutation_in _ (insert_sorted_perm n l)); now left
  end.
Qed.

(** C6, as the code has it. Saving is a no-op when no note carries the
    active id, and returns [undefined] then as it does on success. When a
    note carries it, the first such note gets the title and the content of
    the editor and the current time as [updatedAt]; its id and [createdAt]
    and every other note stay as they were; the collection is stored, then
    sorted. *)
Theorem saveActiveNote_updates (s : state) :
  let s' := exec (saveActiveNote P) s in
  result (saveActiveNote P) s = VUndefined /\
  match result getActiveNote s with
  | None => s' = s
  | Some n =>
      let n' := mkNote (id n) (titleInput_value s) (contentInput_value s)
                       (createdAt n) (clock P (ticks s)) in
      exists before after,
        notes s = (before ++ n :: after)%list /\
        Forall (fun m => same_id (id m) (activeNoteId s) = false) before /\
        storage s' =
          Some (JSON_stringify P
                  (VArr (map note_to_value (before ++ n' :: after)%list))) /\
        notes s' = Array_sort (before ++ n' :: after)%list /\
        activeNoteId s' = activeNoteId s
  end.
Proof.
  unfold exec, result. rewrite saveActiveNote_eq. simpl.
  split; [reflexivity|].
  unfold has_active. rewrite existsb_find.
  unfold getActiveNote, gets. simpl.
  destruct (find _ (notes s)) as [n|] eqn:Hf; [|reflexivity].
  destruct (assign_first_split (activeNoteId s) (titleInput_value s)
              (contentInput_value s) (clock P (ticks s)) _ _ Hf)
    as (before & after & Hl & Hb & Ha).
  exists before, after. unfold saved. simpl. rewrite Ha.
  repeat split; assumption.
Qed.

(** ** Loading *)

Lemma typeof_string (v : value) :
  String.eqb (typeof v) "string" = true <-> exists s, v = VStr s.
Proof.
  split.
  - destruct v; try discriminate. intros _. now exists s.
  - intros [s ->]. reflexivity.
Qed.

Lemma typeof_number (v : value) :
  String.eqb (typeof v) "number" = true <-> exists z, v = VNum z.
Proof.
  split.
  - destruct v; try discriminate. intros _. now exists z.
  - intros [z ->]. reflexivity.
Qed.

Lemma keep_has_string_id (raw : value) : keep raw = has_string_id raw.
Proof.
  unfold keep, has_string_id.
  destruct raw as [| | | | | |props]; simpl; try reflexivity;
    try apply andb_false_r.
  destruct (find _ props) as [kv|]; [|reflexivity].
  destruct (snd kv); reflexivity.
Qed.

Lemma current_time_widen (lo hi lo' hi' : nat) (z : Z) :
  (lo' <= lo)%nat -> (hi <= hi')%nat ->
  current_time P lo hi z -> current_time P lo' hi' z.
Proof.
  intros Hlo Hhi (k & Hk & Hz). exists k. split; [lia|assumption].
Qed.

Lemma sanitized_widen (lo hi lo' hi' : nat) (raw : value) (n : note) :
  (lo' <= lo)%nat -> (hi <= hi')%nat ->
  sanitized P lo hi raw n -> sanitized P lo' hi' raw n.
Proof.
  intros Hlo Hhi (Hi & Ht & Hc & Hca & Hua).
  repeat split; try assumption.
  - destruct (get raw "createdAt"); try assumption;
      eapply current_time_widen; eassumption.
  - destruct (get raw "updatedAt"); try assumption;
      eapply current_time_widen; eassumption.
Qed.

Lemma set_ticks_twice (a b : nat) (s : state) :
  set_ticks b (set_ticks a s) = set_ticks b s.
Proof. reflexivity. Qed.

Lemma set_ticks_same (s : state) : set_ticks (ticks s) s = s.
Proof. now destruct s. Qed.

(** One record: the note is the record with its defaults filled in, and
    only the count of clock readings moves. *)
Lemma sanitize_spec (raw : value) (s : state) :
  has_string_id raw = true ->
  (ticks s <= ticks (exec (sanitize P raw) s))%nat /\
  exec (sanitize P raw) s = set_ticks (ticks (exec (sanitize P raw) s)) s /\
  sanitized P (ticks s) (ticks (exec (sanitize P raw) s)) raw
            (result (sanitize P raw) s).
Proof.
  unfold has_string_id, sanitized, sanitize, exec, result, bind, ret,
    Date_now, current_time.
  intros Hid.
  destruct (get raw "id") eqn:Ei; try discriminate. clear Hid.
  assert (Hs : set_ticks (ticks s) s = s) by apply set_ticks_same.
  destruct (get raw "createdAt"), (get raw "updatedAt"); simpl;
    (split; [lia|]); (split; [now rewrite ?Hs|]);
    repeat split; try reflexivity;
    try (exists (ticks s); split; [lia|reflexivity]);
    try (exists (S (ticks s)); split; [lia|reflexivity]).
Qed.

Lemma mapM_cons {A B : Type} (f : A -> M B) (x : A) (l : list A) (s : state) :
  mapM f (x :: l) s =
  (fst (f x s) :: fst (mapM f l (snd (f x s))), snd (mapM f l (snd (f x s)))).
Proof. reflexivity. Qed.

Lemma mapM_sanitize_spec (l : list value) :
  forall s : state,
    Forall (fun raw => has_string_id raw = true) l ->
    (ticks s <= ticks (exec (mapM (sanitize P) l) s))%nat /\
    exec (mapM (sanitize P) l) s =
      set_ticks (ticks (exec (mapM (sanitize P) l) s)) s /\
    Forall2 (sanitized P (ticks s) (ticks (exec (mapM (sanitize P) l) s)))
            l (result (mapM (sanitize P) l) s).
Proof.
  induction l as [|raw l IH]; intros s Hall.
  - unfold exec, result. simpl. repeat split.
    + lia.
    + symmetry. apply set_ticks_same.
    + constructor.
  - inversion Hall as [|? ? Hraw Hl]; subst.
    destruct (sanitize_spec raw s Hraw) as (H1 & H2 & H3).
    destruct (IH (exec (sanitize P raw) s) Hl) as (H4 & H5 & H6).
    unfold exec, result in *. rewrite mapM_cons. cbn [fst snd].
    set (s1 := snd (sanitize P raw s)) in *.
    set (s2 := snd (mapM (sanitize P) l s1)) in *.
    clearbody s2. repeat split.
    + lia.
    + transitivity (set_ticks (ticks s2) s1); [exact H5|].
      rewrite H2. apply set_ticks_twice.
    + constructor.
      * eapply sanitized_widen; [| |exact H3]; lia.
      * eapply Forall2_impl; [|exact H6].
        intros a b Hab. eapply sanitized_widen; [| |exact Hab]; lia.
Qed.

Lemma filter_keep_all (parsed : list value) :
  Forall (fun raw => has_string_id raw = true) (filter keep parsed).
Proof.
  apply Forall_forall. intros raw Hin. apply filter_In in Hin.
  rewrite <- keep_has_string_id. apply Hin.
Qed.

Lemma filter_keep_eq (parsed : list value) :
  filter keep parsed = filter has_string_id parsed.
Proof. apply filter_ext, keep_has_string_id. Qed.

(** C1. The loader returns the empty list when the storage key is missing,
    when the text does not parse, and when it parses to something that is
    not an array. Otherwise it returns, in order, one note per record that
    has a string id: the id of the record, its title and content when they
    are strings and the empty string when not, its [createdAt] and
    [updatedAt] when they are numbers and the time current during the call
    when not. The empty text is not JSON. *)
Theorem loadFromStorage_sanitizes (s : state) :
  JSON_parse P EmptyString = None ->
  let out := result (loadFromStorage P) s in
  let s' := exec (loadFromStorage P) s in
  match storage s with
  | None => out = []
  | Some text =>
      match JSON_parse P text with
      | None => out = []
      | Some (VArr parsed) =>
          Forall2 (sanitized P (ticks s) (ticks s'))
                  (filter has_string_id parsed) out
      | Some _ => out = []
      end
  end.
Proof.
  intros Hempty. unfold loadFromStorage, exec, result, bind, gets. simpl.
  destruct (storage s) as [text|]; [|reflexivity].
  destruct (String.eqb text EmptyString) eqn:E.
  - apply String.eqb_eq in E. subst text. now rewrite Hempty.
  - destruct (JSON_parse P text) as [v|]; [|reflexivity].
    destruct v; try reflexivity.
    rewrite <- filter_keep_eq.
    apply (mapM_sanitize_spec (filter keep elems) s (filter_keep_all elems)).
Qed.

(** A record with numeric timestamps is sanitized without the clock. *)
Lemma sanitize_numeric (raw : value) (s1 s2 : state) :
  numeric_times raw = true ->
  sanitize P raw s1 = (result (sanitize P raw) s2, s1).
Proof.
  unfold numeric_times, sanitize, result, bind, ret.
  destruct (get raw "createdAt"); try discriminate.
  destruct (get raw "updatedAt"); try discriminate.
  reflexivity.
Qed.

Lemma mapM_sanitize_numeric (l : list value) (s1 s2 : state) :
  forallb numeric_times l = true ->
  mapM (sanitize P) l s1 = (result (mapM (sanitize P) l) s2, s1).
Proof.
  revert s1 s2. induction l as [|raw l IH]; intros s1 s2 Hall.
  - reflexivity.
  - simpl in Hall. apply andb_true_iff in Hall. destruct Hall as [Hraw Hl].
    unfold result. rewrite !mapM_cons.
    rewrite (sanitize_numeric raw s1 s2 Hraw).
    rewrite (sanitize_numeric raw s2 s2 Hraw). cbn [fst snd].
    rewrite (IH s1 s2 Hl). cbn [fst snd].
    unfold result. rewrite (IH s2 s2 Hl). reflexivity.
Qed.

(** C9, as the code has it. When every stored record with a string id has
    numeric [createdAt] and [updatedAt], two loads with no write to storage
    between them return identical lists, whatever the clock did meanwhile. *)
Theorem loadFromStorage_repeatable (s1 s2 : state) :
  storage s2 = storage s1 ->
  (forall text parsed,
      storage s1 = Some text ->
      JSON_parse P text = Some (VArr parsed) ->
      forallb numeric_times (filter has_string_id parsed) = true) ->
  result (loadFromStorage P) s2 = result (loadFromStorage P) s1.
Proof.
  intros Hst Hnum. unfold loadFromStorage, result, bind, gets. simpl.
  rewrite Hst. destruct (storage s1) as [text|]; [|reflexivity].
  destruct (String.eqb text EmptyString); [reflexivity|].
  specialize (Hnum text).
  destruct (JSON_parse P text) as [v|]; [|reflexivity].
  destruct v; try reflexivity.
  specialize (Hnum elems eq_refl eq_refl).
  rewrite <- filter_keep_eq in Hnum.
  rewrite (mapM_sanitize_numeric _ s2 s1 Hnum). reflexivity.
Qed.

(** ** The invariant of the page *)

Lemma exec_bind {A B : Type} (m : M A) (k : A -> M B) (s : state) :
  exec (bind m k) s = exec (k (result m s)) (exec m s).
Proof. reflexivity. Qed.

Lemma result_bind {A B : Type} (m : M A) (k : A -> M B) (s : state) :
  result (bind m k) s = result (k (result m s)) (exec m s).
Proof. reflexivity. Qed.

Lemma existsb_ids (g : string -> bool) (l : list note) :
  existsb (fun n => g (id n)) l = existsb g (map id l).
Proof.
  induction l as [|n l IH]; simpl; [reflexivity|now rewrite IH].
Qed.

Lemma has_active_notes (x s : state) :
  activeNoteId x = activeNoteId s ->
  Permutation (map id (notes s)) (map id (notes x)) ->
  has_active x = has_active s.
Proof.
  unfold has_active. intros Ha Hp. rewrite Ha.
  rewrite (existsb_ids (fun i => same_id i (activeNoteId s)) (notes x)).
  rewrite (existsb_ids (fun i => same_id i (activeNoteId s)) (notes s)).
  symmetry. now apply existsb_perm.
Qed.

Lemma timers_ok_frame (x s : state) :
  timers x = timers s ->
  next_handle x = next_handle s ->
  autosaveTimer x = autosaveTimer s ->
  timers_ok s -> timers_ok x.
Proof.
  unfold timers_ok. intros -> -> ->. tauto.
Qed.

Lemma inv_editor_of (x : state) :
  sorted_desc (notes x) ->
  notesListEl x = notes x ->
  timers_ok x ->
  activeNoteId x = None \/ has_active x = true ->
  inv (editor_of x).
Proof.
  intros Hs Hr Ht Ha.
  destruct (editor_of_frame x)
    as (Hn & Hi & Hau & _ & Hl & Hti & Hnh & _ & _ & Hd).
  assert (Hh : has_active (editor_of x) = has_active x).
  { apply has_active_notes; [assumption|]. now rewrite Hn. }
  constructor.
  - now rewrite Hn.
  - now rewrite Hl, Hn.
  - now apply (timers_ok_frame _ x).
  - rewrite Hi, Hh. assumption.
  - now rewrite Hd, Hh.
Qed.

Lemma same_id_refl (i : string) : same_id i (Some i) = true.
Proof. apply String.eqb_refl. Qed.

Lemma inv_created (rnd : string) (s : state) : inv s -> inv (created rnd s).
Proof.
  intros [Hs Hr Ht Ha Hd]. unfold created. apply inv_editor_of; proj_simpl.
  - apply Array_sort_sorted.
  - reflexivity.
  - exact Ht.
  - right. unfold has_active. proj_simpl.
    rewrite <- (existsb_perm _ _ _ (Array_sort_perm _)).
    cbn [existsb id]. now rewrite same_id_refl.
Qed.

Lemma inv_opened (i : string) (s : state) :
  existsb (fun n => String.eqb (id n) i) (notes s) = true ->
  inv s -> inv (opened i s).
Proof.
  intros Hex [Hs Hr Ht Ha Hd]. unfold opened. apply inv_editor_of; proj_simpl.
  - apply Array_sort_sorted.
  - reflexivity.
  - exact Ht.
  - right. unfold has_active. proj_simpl.
    rewrite <- (existsb_perm _ _ _ (Array_sort_perm (notes s))).
    exact Hex.
Qed.

Lemma inv_saved (s : state) : inv s -> inv (saved s).
Proof.
  intros [Hs Hr Ht Ha Hd].
  assert (Hh : has_active (saved s) = has_active s).
  { apply has_active_notes; [reflexivity|]. unfold saved. proj_simpl.
    rewrite <- (assign_first_ids (activeNoteId s) (titleInput_value s)
                  (contentInput_value s) (clock P (ticks s)) (notes s)).
    apply Permutation_map, Array_sort_perm. }
  constructor.
  - apply Array_sort_sorted.
  - reflexivity.
  - exact Ht.
  - rewrite Hh. exact Ha.
  - rewrite Hh. exact Hd.
Qed.

Lemma inv_deleted (s : state) : inv s -> inv (deleted s).
Proof.
  intros [Hs Hr Ht Ha Hd]. unfold deleted. apply inv_editor_of; proj_simpl.
  - apply Array_sort_sorted.
  - reflexivity.
  - exact Ht.
  - destruct (filter _ (notes s)) as [|n l] eqn:E; [now left|].
    right. unfold has_active. proj_simpl.
    rewrite <- (existsb_perm _ _ _ (Array_sort_perm (n :: l))).
    cbn [existsb]. now rewrite same_id_refl.
Qed.

Lemma inv_saveActiveNote (s : state) :
  inv s -> inv (exec (saveActiveNote P) s).
Proof.
  intros Hinv. unfold exec. rewrite saveActiveNote_eq. simpl.
  destruct (has_active s); [now apply inv_saved|assumption].
Qed.

(** The state [scheduleAutosave] leaves: one timer, due in 350 ms. *)
Definition armed (s : state) : state :=
  set_autosaveTimer (Some (next_handle s))
    (set_next_handle (S (next_handle s))
       (set_timers [(next_handle s, mono s + 350)] s)).

Lemma scheduleAutosave_eq (s : state) :
  timers_ok s -> scheduleAutosave s = (VUndefined, armed s).
Proof.
  intros [Hnh [Hnil | (h & d & Hone & Hau & Hh)]];
    unfold scheduleAutosave, armed, bind, gets, setTimeout, clearTimeout,
      modify, ret; simpl.
  - destruct (autosaveTimer s) as [h|]; simpl.
    + destruct (negb (Z.of_nat h =? 0)); simpl; now rewrite Hnil.
    + now rewrite Hnil.
  - rewrite Hau. simpl.
    assert (E : (Z.of_nat h =? 0) = false) by (apply Z.eqb_neq; lia).
    rewrite E. simpl. rewrite Hone. simpl. now rewrite Nat.eqb_refl.
Qed.

Lemma inv_armed (s : state) : inv s -> inv (armed s).
Proof.
  intros [Hs Hr [Hnh Ht] Ha Hd]. constructor; try assumption.
  split; simpl.
  - discriminate.
  - right. exists (next_handle s), (mono s + 350). now repeat split.
Qed.

Lemma renderNotesList_eq (s : state) :
  renderNotesList s =
  (tt, set_notesListEl (Array_sort (notes s))
         (set_notes (Array_sort (notes s)) s)).
Proof. reflexivity. Qed.

Lemma rendered_fixed (s : state) :
  inv s ->
  set_notesListEl (Array_sort (notes s)) (set_notes (Array_sort (notes s)) s)
  = s.
Proof.
  intros [Hs Hr _ _ _]. rewrite (Array_sort_fixed _ Hs).
  destruct s; simpl in *. now subst.
Qed.

Lemma onInput_eq (s : state) :
  inv s ->
  onInput s =
  (VUndefined, if truthy (id_value (activeNoteId s)) then armed s else s).
Proof.
  intros Hinv. unfold onInput, bind, gets. cbn [fst snd].
  destruct (truthy (id_value (activeNoteId s))); cbn [negb]; [|reflexivity].
  rewrite (scheduleAutosave_eq s (inv_timers s Hinv)). cbn [fst snd].
  rewrite renderNotesList_eq. cbn [fst snd]. unfold ret.
  now rewrite (rendered_fixed (armed s) (inv_armed s Hinv)).
Qed.

(** The invariant reads seven fields of the state. *)
Lemma inv_frame (x s : state) :
  notes x = notes s ->
  activeNoteId x = activeNoteId s ->
  autosaveTimer x = autosaveTimer s ->
  inputs_disabled x = inputs_disabled s ->
  notesListEl x = notesListEl s ->
  timers x = timers s ->
  next_handle x = next_handle s ->
  inv s -> inv x.
Proof.
  intros Hn Ha Hau Hd Hl Ht Hnh [Hs Hr Hto Hac Hen].
  assert (Hh : has_active x = has_active s).
  { apply has_active_notes; [assumption|now rewrite Hn]. }
  constructor.
  - now rewrite Hn.
  - now rewrite Hl, Hn.
  - now apply (timers_ok_frame x s).
  - now rewrite Ha, Hh.
  - now rewrite Hd, Hh.
Qed.

Lemma inv_disarmed (s : state) : inv s -> inv (set_timers [] s).
Proof.
  intros [Hs Hr [Hnh Ht] Ha Hd]. constructor; try assumption.
  split; [assumption|now left].
Qed.

(** The state the callback of a timer due at [d] leaves. *)
Definition fired_at (d : Z) (s : state) : state :=
  exec (saveActiveNote P) (set_mono d (set_timers [] s)).

Lemma inv_fired_at (d : Z) (s : state) : inv s -> inv (fired_at d s).
Proof.
  intros Hinv. apply inv_saveActiveNote.
  apply (inv_frame _ (set_timers [] s)); try reflexivity.
  now apply inv_disarmed.
Qed.

Lemma fire_one (h : nat) (d : Z) (s : state) :
  timers s = [(h, d)] ->
  fire_all P [(h, d)] s = ([d], fired_at d s).
Proof.
  intros Ht. unfold fired_at, exec.
  cbn [fire_all]. unfold bind, clearTimeout, modify, ret. cbn [fst snd].
  rewrite Ht. cbn [filter fst]. rewrite Nat.eqb_refl. cbn [negb].
  reflexivity.
Qed.

Lemma elapse_eq (dt : Z) (s : state) :
  timers_ok s ->
  elapse P dt s =
  match timers s with
  | [(h, d)] =>
      if d <=? mono s + Z.max 0 dt
      then ([d], set_mono (mono s + Z.max 0 dt) (fired_at d s))
      else ([], set_mono (mono s + Z.max 0 dt) s)
  | _ => ([], set_mono (mono s + Z.max 0 dt) s)
  end.
Proof.
  intros [_ [Hnil | (h & d & Hone & _ & _)]];
    unfold elapse, bind, gets, modify, ret; cbn [fst snd].
  - rewrite Hnil. reflexivity.
  - rewrite Hone. cbn [filter snd].
    destruct (d <=? mono s + Z.max 0 dt).
    + rewrite (fire_one h d s Hone). reflexivity.
    + reflexivity.
Qed.

Lemma inv_elapse (dt : Z) (s : state) : inv s -> inv (exec (elapse P dt) s).
Proof.
  intros Hinv. unfold exec. rewrite (elapse_eq dt s (inv_timers s Hinv)).
  destruct (timers s) as [|[h d] [|? ?]]; cbn [snd];
    try (apply (inv_frame _ s); try reflexivity; assumption).
  destruct (d <=? mono s + Z.max 0 dt); cbn [snd].
  - apply (inv_frame _ (fired_at d s)); try reflexivity.
    now apply inv_fired_at.
  - apply (inv_frame _ s); try reflexivity; assumption.
Qed.

Lemma typeInto_eq (setter : string -> state -> state) (v : string)
  (s : state) :
  inv (setter v s) ->
  typeInto setter v s =
  ([], if inputs_disabled s then s
       else if truthy (id_value (activeNoteId (setter v s)))
            then armed (setter v s) else setter v s).
Proof.
  intros Hinv. unfold typeInto, bind, gets, modify, ret. cbn [fst snd].
  destruct (inputs_disabled s); [reflexivity|].
  rewrite (onInput_eq _ Hinv). reflexivity.
Qed.

Lemma inv_typeInto (setter : string -> state -> state) (v : string)
  (s : state) :
  inv s -> inv (setter v s) -> inv (exec (typeInto setter v) s).
Proof.
  intros Hs Hinv. unfold exec. rewrite (typeInto_eq _ _ _ Hinv). cbn [snd].
  destruct (inputs_disabled s); [assumption|].
  destruct (truthy _); [now apply inv_armed|assumption].
Qed.

Lemma inv_dispatch (e : event) (s : state) :
  inv s -> inv (exec (dispatch P e) s).
Proof.
  intros Hinv. destruct e; unfold dispatch.
  - rewrite exec_bind. unfold exec at 1, ret. cbn [snd].
    unfold exec. rewrite createNewNote_eq. now apply inv_created.
  - rewrite exec_bind. unfold exec at 1, ret. cbn [snd].
    unfold exec. rewrite openNote_eq. cbn [snd].
    destruct (existsb _ (notes s)) eqn:E; [now apply inv_opened|assumption].
  - rewrite exec_bind. unfold exec at 1, ret. cbn [snd].
    now apply inv_saveActiveNote.
  - rewrite exec_bind. unfold exec at 1, ret. cbn [snd].
    unfold exec. rewrite deleteActiveNote_eq. cbn [snd].
    destruct (has_active s && ok); [now apply inv_deleted|assumption].
  - apply inv_typeInto; [assumption|].
    apply (inv_frame _ s); try reflexivity; assumption.
  - apply inv_typeInto; [assumption|].
    apply (inv_frame _ s); try reflexivity; assumption.
  - rewrite exec_bind. unfold exec at 1, ret. cbn [snd].
    unfold onKeydown.
    destruct (isMac && metaKey && String.eqb key "s"
              || negb isMac && ctrlKey && String.eqb key "s").
    + rewrite exec_bind. unfold exec at 1, ret. cbn [snd].
      now apply inv_saveActiveNote.
    + assumption.
  - now apply inv_elapse.
Qed.

Lemma run_cons (e : event) (evs : list event) (s : state) :
  run P (e :: evs) s =
  ((result (dispatch P e) s ++ result (run P evs) (exec (dispatch P e) s))%list,
   exec (run P evs) (exec (dispatch P e) s)).
Proof. reflexivity. Qed.

Lemma inv_run (evs : list event) :
  forall s, inv s -> inv (exec (run P evs) s).
Proof.
  induction evs as [|e evs IH]; intros s Hinv.
  - exact Hinv.
  - unfold exec. rewrite run_cons. cbn [snd].
    apply IH. now apply inv_dispatch.
Qed.

Lemma loadFromStorage_frame (s : state) :
  exec (loadFromStorage P) s =
  set_ticks (ticks (exec (loadFromStorage P) s)) s.
Proof.
  unfold loadFromStorage, exec, bind, gets, ret. cbn [fst snd].
  destruct (storage s) as [text|]; [|symmetry; apply set_ticks_same].
  destruct (String.eqb text EmptyString); [symmetry; apply set_ticks_same|].
  destruct (JSON_parse P text) as [v|]; [|symmetry; apply set_ticks_same].
  destruct v; try (symmetry; apply set_ticks_same).
  apply (mapM_sanitize_spec (filter keep elems) s (filter_keep_all elems)).
Qed.

(** The state start-up leaves. *)
Definition started (s : state) : state :=
  let l := Array_sort (result (loadFromStorage P) s) in
  editor_of
    (mkState (Array_sort l)
       (match l with n :: _ => Some (id n) | [] => None end)
       (autosaveTimer s) (storage s)
       (titleInput_value s) (contentInput_value s) (inputs_disabled s)
       (Array_sort l) (timers s) (next_handle s) (mono s)
       (ticks (exec (loadFromStorage P) s))).

Lemma init_eq (s : state) : init P s = (VUndefined, started s).
Proof.
  unfold started, init. unfold bind at 1.
  change (snd (loadFromStorage P s)) with (exec (loadFromStorage P) s).
  change (fst (loadFromStorage P s)) with (result (loadFromStorage P) s).
  cbv zeta. rewrite (loadFromStorage_frame s) at 1.
  unfold bind, modify, sortNotesByUpdatedAtDesc, ret. cbn [fst snd].
  rewrite renderNotesList_eq. cbn [fst snd]. rewrite renderEditor_eq.
  reflexivity.
Qed.

Lemma inv_started (stored : option string) : inv (started (boot stored)).
Proof.
  unfold started. apply inv_editor_of; proj_simpl.
  - apply Array_sort_sorted.
  - reflexivity.
  - split; [discriminate|now left].
  - destruct (Array_sort (result (loadFromStorage P) (boot stored)))
      as [|n l] eqn:E; [now left|].
    right. unfold has_active. proj_simpl.
    rewrite <- (existsb_perm _ _ _ (Array_sort_perm (n :: l))).
    cbn [existsb]. now rewrite same_id_refl.
Qed.

Lemma session_eq (stored : option string) (evs : list event) :
  session P stored evs = exec (run P evs) (started (boot stored)).
Proof.
  unfold session. rewrite exec_bind. unfold exec at 2.
  now rewrite init_eq.
Qed.

(** Every state the page reaches satisfies the invariant. *)
Lemma inv_session (stored : option string) (evs : list event) :
  inv (session P stored evs).
Proof. rewrite session_eq. apply inv_run, inv_started. Qed.

(** ** Ordering and selection *)

Lemma sorted_desc_adjacent (l : list note) :
  sorted_desc l ->
  forall (i : nat) (a b : note),
    nth_error l i = Some a -> nth_error l (S i) = Some b ->
    updatedAt b <= updatedAt a.
Proof.
  unfold sorted_desc. induction 1 as [|x l Hl IH Hhd]; intros i a b Ha Hb.
  - destruct i; discriminate.
  - destruct i as [|i].
    + simpl in Ha. injection Ha as <-.
      destruct l as [|y l]; [discriminate|].
      simpl in Hb. injection Hb as <-.
      now inversion Hhd.
    + simpl in Ha. apply (IH i a b Ha Hb).
Qed.

(** C5. Whatever the stored text and whatever events follow start-up, the
    list the page shows is the collection in order of [updatedAt],
    descending: each entry's [updatedAt] is at most that of the entry
    before it. *)
Theorem rendered_list_sorted (stored : option string) (evs : list event) :
  let shown := notesListEl (session P stored evs) in
  shown = notes (session P stored evs) /\
  sorted_desc shown /\
  forall (i : nat) (a b : note),
    nth_error shown i = Some a -> nth_error shown (S i) = Some b ->
    updatedAt b <= updatedAt a.
Proof.
  destruct (inv_session stored evs) as [Hs Hr _ _ _].
  cbv zeta. rewrite Hr. repeat split; try assumption.
  now apply sorted_desc_adjacent.
Qed.

Lemma has_active_single (s : state) (n : note) :
  notes s = [n] -> has_active s = true ->
  filter (fun m => negb (same_id (id m) (activeNoteId s))) (notes s) = [].
Proof.
  unfold has_active. intros -> H. simpl in *.
  rewrite orb_false_r in H. now rewrite H.
Qed.

Lemma distinct_ids_survivor (a : option string) (l : list note) :
  NoDup (map id l) -> (1 < List.length l)%nat ->
  filter (fun m => negb (same_id (id m) a)) l <> [].
Proof.
  destruct l as [|x [|y l]]; simpl; try lia. intros Hnd _.
  inversion Hnd as [|? ? Hnotin _]; subst.
  assert (Hxy : id x <> id y) by (intros E; apply Hnotin; now left).
  destruct a as [a|]; simpl; [|discriminate].
  destruct (String.eqb (id x) a) eqn:Ex; simpl; [|discriminate].
  destruct (String.eqb (id y) a) eqn:Ey; simpl; [|discriminate].
  apply String.eqb_eq in Ex, Ey. congruence.
Qed.

(** C2, as the code has it. On a page reached from start-up, a confirmed
    delete of the active note leaves the notes with another id, in order.
    If none is left the selection becomes null, and that is so when the
    collection had size 1. Otherwise the selection becomes the id of the
    first survivor, whose [updatedAt] is the greatest among the survivors;
    a survivor exists when the size exceeds 1 and the ids are distinct. *)
Theorem delete_reselects (stored : option string) (evs : list event) :
  let s := session P stored evs in
  let s' := exec (deleteActiveNote P true) s in
  let rest :=
    filter (fun n => negb (same_id (id n) (activeNoteId s))) (notes s) in
  has_active s = true ->
  notes s' = rest /\
  match rest with
  | [] => activeNoteId s' = None
  | n :: _ =>
      activeNoteId s' = Some (id n) /\
      forall m, In m rest -> updatedAt m <= updatedAt n
  end /\
  (List.length (notes s) = 1%nat -> activeNoteId s' = None) /\
  (NoDup (map id (notes s)) -> (1 < List.length (notes s))%nat ->
   rest <> []).
Proof.
  cbv zeta. intros Hact.
  set (s := session P stored evs) in *.
  assert (Hsorted : sorted_desc (notes s)) by apply inv_session.
  unfold exec. rewrite deleteActiveNote_eq, Hact. cbn [andb snd].
  unfold deleted.
  match goal with |- context [editor_of ?x] =>
    destruct (editor_of_frame x) as (Hn & Ha & _)
  end.
  rewrite Hn, Ha. proj_simpl.
  set (rest := filter _ (notes s)).
  assert (Hrest : sorted_desc rest) by now apply sorted_desc_filter.
  rewrite (Array_sort_fixed rest Hrest).
  split; [reflexivity|]. split; [|split].
  - destruct rest as [|n rest']; [reflexivity|].
    split; [reflexivity|]. now apply sorted_desc_head.
  - intros Hlen. destruct (notes s) as [|n [|? ?]] eqn:E; try discriminate.
    pose proof (has_active_single s n E Hact) as Hnone.
    rewrite E in Hnone. unfold rest. now rewrite Hnone.
  - apply distinct_ids_survivor.
Qed.

(** ** Autosave *)

(** The value an edit stages in its control. *)
Definition stage (e : edit) (s : state) : state :=
  match e with
  | EditTitle v => set_titleInput_value v s
  | EditContent v => set_contentInput_value v s
  end.

Lemma inv_stage (e : edit) (s : state) : inv s -> inv (stage e s).
Proof.
  intros Hinv. destruct e; apply (inv_frame _ s); try reflexivity; assumption.
Qed.

(** An edit on an enabled editor stages its value, drops the pending timer
    and arms one due in 350 ms. *)
Lemma edit_eq (e : edit) (s : state) :
  inv s ->
  inputs_disabled s = false ->
  truthy (id_value (activeNoteId s)) = true ->
  dispatch P (edit_event e) s = ([], armed (stage e s)).
Proof.
  intros Hinv Hen Htr.
  destruct e; unfold edit_event, dispatch, stage.
  - rewrite typeInto_eq by apply (inv_stage (EditTitle v) s Hinv).
    rewrite Hen.
    change (activeNoteId (set_titleInput_value v s)) with (activeNoteId s).
    now rewrite Htr.
  - rewrite typeInto_eq by apply (inv_stage (EditContent v) s Hinv).
    rewrite Hen.
    change (activeNoteId (set_contentInput_value v s)) with (activeNoteId s).
    now rewrite Htr.
Qed.

(** Time short of the deadline passes without a save. *)
Lemma wait_short (gap : Z) (h : nat) (d : Z) (s : state) :
  timers_ok s -> timers s = [(h, d)] ->
  0 <= gap -> mono s + gap < d ->
  elapse P gap s = ([], set_mono (mono s + gap) s).
Proof.
  intros Hok Ht Hgap Hd. rewrite (elapse_eq gap s Hok), Ht.
  rewrite Z.max_r by lia.
  destruct (d <=? mono s + gap) eqn:E; [|reflexivity].
  apply Z.leb_le in E. lia.
Qed.

(** What holds between the edits of a burst: the editor is enabled on a
    note with a truthy id, and one timer is pending, due 350 ms from now. *)
Definition editing (s : state) : Prop :=
  inv s /\
  inputs_disabled s = false /\
  truthy (id_value (activeNoteId s)) = true /\
  exists h, timers s = [(h, mono s + 350)] /\ autosaveTimer s = Some h.

Lemma editing_edit (e : edit) (s : state) :
  inv s ->
  inputs_disabled s = false ->
  truthy (id_value (activeNoteId s)) = true ->
  editing (armed (stage e s)) /\
  mono (armed (stage e s)) = mono s /\
  staged e (armed (stage e s)).
Proof.
  intros Hinv Hen Htr. split; [|split; now destruct e].
  split; [apply inv_armed, inv_stage, Hinv|].
  split; [now destruct e|]. split; [now destruct e|].
  exists (next_handle (stage e s)). now destruct e.
Qed.

Lemma burst_rest_quiet (rest : list (Z * edit)) :
  forall (e0 : edit) (s : state),
    editing s ->
    staged e0 s ->
    Forall (fun ge => 0 <= fst ge < 350) rest ->
    result (run P (burst_rest rest)) s = [] /\
    editing (exec (run P (burst_rest rest)) s) /\
    mono (exec (run P (burst_rest rest)) s) =
      mono s + fold_right Z.add 0 (map fst rest) /\
    staged (last_edit e0 rest) (exec (run P (burst_rest rest)) s).
Proof.
  induction rest as [|[gap e] rest IH]; intros e0 s Hed Hst Hgaps.
  - cbn [burst_rest map fold_right].
    change (exec (run P []) s) with s.
    split; [reflexivity|]. split; [exact Hed|]. split; [lia|exact Hst].
  - inversion Hgaps as [|? ? Hgap Hrest]; subst. cbn [fst] in Hgap.
    destruct Hed as (Hinv & Hen & Htr & h & Ht & Hau).
    assert (Hw : dispatch P (Wait gap) s = ([], set_mono (mono s + gap) s)).
    { unfold dispatch.
      apply (wait_short gap h (mono s + 350) s (inv_timers s Hinv) Ht); lia. }
    set (s1 := set_mono (mono s + gap) s) in *.
    assert (Hinv1 : inv s1)
      by (apply (inv_frame _ s); try reflexivity; assumption).
    destruct (editing_edit e s1 Hinv1 Hen Htr) as (Hed2 & Hm2 & Hst2).
    destruct (IH e _ Hed2 Hst2 Hrest) as (Hq & Hed3 & Hm3 & Hst3).
    cbn [burst_rest fst snd map fold_right].
    unfold exec, result in *. rewrite !run_cons. unfold exec, result.
    rewrite Hw. cbn [fst snd]. rewrite !run_cons. unfold exec, result.
    rewrite (edit_eq e s1 Hinv1 Hen Htr).
    cbn [fst snd app]. rewrite Hq, Hm3, Hm2.
    split; [reflexivity|]. split; [exact Hed3|].
    split; [change (mono s1) with (mono s + gap); lia|].
    exact Hst3.
Qed.

(** The one pending timer fires when its deadline is reached. *)
Lemma wait_long (dt : Z) (h : nat) (d : Z) (s : state) :
  timers_ok s -> timers s = [(h, d)] ->
  d <= mono s + dt -> 0 <= dt ->
  run P [Wait dt] s = ([d], set_mono (mono s + dt) (fired_at d s)).
Proof.
  intros Hok Ht Hd Hdt. rewrite run_cons. unfold exec, result, dispatch.
  rewrite (elapse_eq dt s Hok), Ht. rewrite Z.max_r by lia.
  destruct (d <=? mono s + dt) eqn:E.
  - reflexivity.
  - apply Z.leb_gt in E. lia.
Qed.

(** A save on an existing active note leaves in the collection that note
    with the title and the content of the editor. *)
Lemma saveActiveNote_contains (s : state) :
  has_active s = true ->
  exists n,
    result getActiveNote s = Some n /\
    In (mkNote (id n) (titleInput_value s) (contentInput_value s)
               (createdAt n) (clock P (ticks s)))
       (notes (exec (saveActiveNote P) s)).
Proof.
  intros Hact. unfold exec. rewrite saveActiveNote_eq, Hact. cbn [snd].
  unfold has_active in Hact. rewrite existsb_find in Hact.
  unfold result, getActiveNote, gets. cbn [fst].
  destruct (find _ (notes s)) as [n|] eqn:Hf; [|discriminate].
  exists n. split; [reflexivity|].
  destruct (assign_first_split (activeNoteId s) (titleInput_value s)
              (contentInput_value s) (clock P (ticks s)) _ _ Hf)
    as (before & after & _ & _ & Ha).
  unfold saved. proj_simpl. rewrite Ha.
  apply (Permutation_in _ (Array_sort_perm _)).
  apply in_or_app. right. now left.
Qed.

Lemma saveActiveNote_timers (s : state) :
  timers (exec (saveActiveNote P) s) = timers s /\
  autosaveTimer (exec (saveActiveNote P) s) = autosaveTimer s /\
  next_handle (exec (saveActiveNote P) s) = next_handle s /\
  mono (exec (saveActiveNote P) s) = mono s.
Proof.
  unfold exec. rewrite saveActiveNote_eq. cbn [snd].
  destruct (has_active s); repeat split; reflexivity.
Qed.

(** C3. On a page reached from start-up whose editor is enabled on a note
    with a truthy id, take a burst of edits, each less than 350 ms after
    the one before. No save runs during the burst. After it one timer is
    pending, due 350 ms after the last edit, and the editor holds what the
    last edit typed. When that time has passed, exactly one save has run,
    at that deadline, on the state the last edit staged: the collection
    holds the active note with the title and the content of the editor as
    they were at the last edit. No timer is left. Scheduling always leaves
    exactly the one new timer, and no reachable state holds more than
    one. *)
Theorem autosave_debounced (stored : option string) (pre : list event)
  (e0 : edit) (rest : list (Z * edit)) (dt : Z) :
  let s0 := session P stored pre in
  let s1 := exec (run P (burst e0 rest)) s0 in
  let due := mono s1 + 350 in
  inputs_disabled s0 = false ->
  truthy (id_value (activeNoteId s0)) = true ->
  Forall (fun ge => 0 <= fst ge < 350) rest ->
  350 <= dt ->
  result (run P (burst e0 rest)) s0 = [] /\
  mono s1 = mono s0 + fold_right Z.add 0 (map fst rest) /\
  (exists h, timers s1 = [(h, due)] /\ autosaveTimer s1 = Some h) /\
  staged (last_edit e0 rest) s1 /\
  run P [Wait dt] s1 =
    ([due],
     set_mono (mono s1 + dt)
       (exec (saveActiveNote P) (set_mono due (set_timers [] s1)))) /\
  (exists n,
      result getActiveNote s1 = Some n /\
      In (mkNote (id n) (titleInput_value s1) (contentInput_value s1)
                 (createdAt n) (clock P (ticks s1)))
         (notes (exec (run P [Wait dt]) s1))) /\
  timers (exec (run P [Wait dt]) s1) = [] /\
  (forall evs,
      let s := session P stored evs in
      timers (exec scheduleAutosave s) = [(next_handle s, mono s + 350)] /\
      (List.length (timers s) <= 1)%nat).
Proof.
  cbv zeta. intros Hen Htr Hgaps Hdt.
  set (s0 := session P stored pre) in *.
  assert (Hinv0 : inv s0) by apply inv_session.
  destruct (editing_edit e0 s0 Hinv0 Hen Htr) as (Hed1 & Hm1 & Hst1).
  destruct (burst_rest_quiet rest e0 _ Hed1 Hst1 Hgaps)
    as (Hq & Hed & Hm & Hst).
  assert (Hrun : run P (burst e0 rest) s0 =
                 (result (run P (burst_rest rest)) (armed (stage e0 s0)),
                  exec (run P (burst_rest rest)) (armed (stage e0 s0)))).
  { unfold burst. rewrite run_cons. unfold exec, result.
    rewrite (edit_eq e0 s0 Hinv0 Hen Htr). reflexivity. }
  assert (Hexec : exec (run P (burst e0 rest)) s0 =
                  exec (run P (burst_rest rest)) (armed (stage e0 s0)))
    by (unfold exec at 1; now rewrite Hrun).
  assert (Hres : result (run P (burst e0 rest)) s0 =
                 result (run P (burst_rest rest)) (armed (stage e0 s0)))
    by (unfold result at 1; now rewrite Hrun).
  rewrite Hexec, Hres. clear Hrun Hexec Hres.
  set (s1 := exec (run P (burst_rest rest)) (armed (stage e0 s0))) in *.
  destruct Hed as (Hinv1 & Hen1 & Htr1 & h & Ht1 & Hau1).
  split; [exact Hq|]. split; [rewrite Hm, Hm1; reflexivity|].
  split; [exists h; now split|].
  assert (Hact : has_active s1 = true).
  { pose proof (inv_enabled s1 Hinv1) as E. rewrite Hen1 in E.
    now destruct (has_active s1). }
  split; [exact Hst|].
  assert (Hlong : run P [Wait dt] s1 =
                  ([mono s1 + 350],
                   set_mono (mono s1 + dt) (fired_at (mono s1 + 350) s1))).
  { apply (wait_long dt h); [apply Hinv1|exact Ht1|lia|lia]. }
  split; [exact Hlong|]. split; [|split].
  - destruct (saveActiveNote_contains
                (set_mono (mono s1 + 350) (set_timers [] s1)) Hact)
      as (n & Hn & Hin).
    exists n. split; [exact Hn|].
    unfold exec at 1. rewrite Hlong. exact Hin.
  - unfold exec at 1. rewrite Hlong. cbn [snd]. unfold fired_at.
    destruct (saveActiveNote_timers (set_mono (mono s1 + 350) (set_timers [] s1)))
      as (Ht & _).
    change (timers (exec (saveActiveNote P)
                      (set_mono (mono s1 + 350) (set_timers [] s1))) = []).
    rewrite Ht. reflexivity.
  - intros evs. pose proof (inv_session stored evs) as Hinv.
    split.
    + unfold exec. rewrite (scheduleAutosave_eq _ (inv_timers _ Hinv)).
      reflexivity.
    + destruct (inv_timers _ Hinv) as [_ [-> | (h' & d' & -> & _)]];
        simpl; lia.
Qed.

(** C4, as the code has it. An explicit save, by the button or by the
    keyboard shortcut, runs the save at once and touches no timer: the
    timer table and the remembered handle stay as they were, so a timer
    pending from an earlier edit still fires at its deadline and saves
    once more. *)
Theorem explicit_save_keeps_timer (s : state) :
  let s' := exec (saveActiveNote P) s in
  exec (dispatch P ClickSave) s = s' /\
  (forall isMac metaKey ctrlKey : bool,
      (if isMac then metaKey else ctrlKey) = true ->
      exec (dispatch P (Keydown isMac metaKey ctrlKey "s")) s = s') /\
  timers s' = timers s /\
  autosaveTimer s' = autosaveTimer s /\
  (forall h d dt,
      timers_ok s -> timers s = [(h, d)] -> 0 <= dt -> d <= mono s + dt ->
      result (run P [ClickSave; Wait dt]) s = [d]).
Proof.
  cbv zeta.
  destruct (saveActiveNote_timers s) as (Ht & Hau & Hnh & Hm).
  split; [reflexivity|]. split; [|split; [exact Ht|split; [exact Hau|]]].
  - intros isMac metaKey ctrlKey Hcombo. unfold dispatch, onKeydown.
    destruct isMac, metaKey, ctrlKey; try discriminate; reflexivity.
  - intros h d dt Hok Hone Hdt Hd.
    unfold result. rewrite run_cons. unfold result, exec.
    change (snd (dispatch P ClickSave s)) with (exec (saveActiveNote P) s).
    change (fst (dispatch P ClickSave s)) with (@nil Z).
    rewrite (wait_long dt h d).
    + reflexivity.
    + now apply (timers_ok_frame _ s).
    + now rewrite Ht.
    + now rewrite Hm.
    + exact Hdt.
Qed.

End Facts.

(** ** The handlers on the sample platform *)

Example load_scenario :
  result (loadFromStorage sample) scenario_page =
  [ mkNote "x" EmptyString EmptyString 1000 1010;
    mkNote "y" "T" EmptyString 1020 5 ].
Proof. reflexivity. Qed.

(** Create a note, give it a title, create a second note: the second note
    is listed first, and deleting it selects the first. *)
Example create_update_create :
  let s := session sample None
             [ClickCreate "ab"; InputTitle "Hello"; ClickSave;
              ClickCreate "cd"] in
  map title (notesListEl s) = [EmptyString; "Hello"] /\
  map id (notesListEl s) = ["n_1040_cd"; "n_1010_ab"] /\
  activeNoteId (exec (deleteActiveNote sample true) s) = Some "n_1010_ab".
Proof. repeat split. Qed.

Lemma loadFromStorage_sanitizes_witness :
  JSON_parse sample EmptyString = None /\
  Forall2 (sanitized sample 0 3)
    [ VObj [("id", VStr "x")];
      VObj [("id", VStr "y"); ("title", VStr "T"); ("updatedAt", VNum 5)] ]
    (result (loadFromStorage sample) scenario_page).
Proof.
  split; [reflexivity|].
  exact (loadFromStorage_sanitizes sample scenario_page eq_refl).
Defined.

(** On a record without timestamps the second load differs from the
    first. *)
Lemma loadFromStorage_twice_differs :
  storage (exec (loadFromStorage sample) scenario_page)
    = storage scenario_page /\
  result (loadFromStorage sample) scenario_page
    <> result (loadFromStorage sample)
         (exec (loadFromStorage sample) scenario_page).
Proof. split; [reflexivity|]. vm_compute. discriminate. Qed.

Lemma loadFromStorage_repeatable_witness :
  let s1 := boot (Some (sample_stringify twins_array)) in
  let s2 := set_ticks 7 s1 in
  storage s2 = storage s1 /\
  result (loadFromStorage sample) s2 = result (loadFromStorage sample) s1.
Proof.
  cbv zeta. split; [reflexivity|].
  apply (loadFromStorage_repeatable sample); [reflexivity|].
  intros text parsed Htext Hparsed.
  injection Htext as <-. vm_compute in Hparsed.
  injection Hparsed as <-. reflexivity.
Defined.

(** Two notes share the active id: deleting empties the collection of
    size 2 and the selection becomes null. *)
Lemma delete_twins_selects_nothing :
  List.length (notes twins_page) = 2%nat /\
  activeNoteId twins_page = Some "x" /\
  notes (exec (deleteActiveNote sample true) twins_page) = [] /\
  activeNoteId (exec (deleteActiveNote sample true) twins_page) = None.
Proof. repeat split. Qed.

Lemma delete_reselects_witness :
  has_active two_page = true /\
  activeNoteId (exec (deleteActiveNote sample true) two_page)
    = Some "n_1010_ab".
Proof.
  split; [reflexivity|].
  destruct (delete_reselects sample None
              [ClickCreate "ab"; ClickCreate "cd"] eq_refl)
    as (_ & Hsel & _).
  exact (proj1 Hsel).
Defined.

(** The save returns [undefined] whether or not a note carries the active
    id: its result tells a failure from a success in no way. *)
Lemma save_result_tells_nothing :
  has_active empty_page = false /\
  has_active one_page = true /\
  result (saveActiveNote sample) empty_page = VUndefined /\
  result (saveActiveNote sample) one_page = VUndefined.
Proof. repeat split. Qed.

(** Deleting the only note empties the collection, and the handler
    returns [undefined], not a boolean. *)
Lemma delete_result_is_undefined :
  notes (exec (deleteActiveNote sample true) one_page) = [] /\
  result (deleteActiveNote sample true) one_page = VUndefined /\
  result (deleteActiveNote sample true) one_page <> VBool true.
Proof. repeat split. discriminate. Qed.

(** Creating returns [undefined], not the id of the new note. *)
Lemma create_result_is_undefined :
  activeNoteId (exec (createNewNote sample "ab") empty_page)
    = Some "n_1010_ab" /\
  result (createNewNote sample "ab") empty_page = VUndefined /\
  result (createNewNote sample "ab") empty_page <> VStr "n_1010_ab".
Proof. repeat split. discriminate. Qed.

(** An edit at time 0, an explicit save at time 100: the timer of the edit
    is still armed after the save, and fires at 350. *)
Lemma explicit_save_leaves_timer_armed :
  mono typed_page = 100 /\
  timers (exec (dispatch sample ClickSave) typed_page) = [(1%nat, 350)] /\
  timers (exec (dispatch sample (Keydown false false true "s")) typed_page)
    = [(1%nat, 350)] /\
  result (run sample [ClickSave; Wait 1000]) typed_page = [350].
Proof. repeat split. Qed.

Lemma explicit_save_keeps_timer_witness :
  timers typed_page = [(1%nat, 350)] /\
  result (run sample [ClickSave; Wait 400]) typed_page = [350].
Proof.
  split; [reflexivity|].
  destruct (explicit_save_keeps_timer sample typed_page)
    as (_ & _ & _ & _ & Hfires).
  apply (Hfires 1%nat 350 400).
  - split; [discriminate|]. right. exists 1%nat, 350.
    split; [reflexivity|]. split; [reflexivity|discriminate].
  - reflexivity.
  - lia.
  - simpl. lia.
Defined.

Lemma autosave_debounced_witness :
  let s1 := exec (run sample
                    (burst (EditTitle "H")
                       [(100, EditTitle "He"); (200, EditContent "body")]))
                 one_page in
  inputs_disabled one_page = false /\
  mono s1 = 300 /\
  result (run sample
            (burst (EditTitle "H")
               [(100, EditTitle "He"); (200, EditContent "body")]))
         one_page = [] /\
  result (run sample [Wait 400]) s1 = [650].
Proof.
  cbv zeta. split; [reflexivity|]. split; [reflexivity|].
  assert (Hgaps : Forall (fun ge : Z * edit => 0 <= fst ge < 350)
                    [(100, EditTitle "He"); (200, EditContent "body")])
    by (repeat constructor; simpl; lia).
  assert (Hdt : 350 <= 400) by lia.
  destruct (autosave_debounced sample None [ClickCreate "ab"]
              (EditTitle "H")
              [(100, EditTitle "He"); (200, EditContent "body")] 400
              eq_refl eq_refl Hgaps Hdt)
    as (Hquiet & _ & _ & _ & Hone & _).
  split; [exact Hquiet|].
  exact (f_equal fst Hone).
Defined.
